(** * FormatterRegistry: registry of Formatter factories

    Shallow embedding of [lsst::daf::persistence::FormatterRegistry]
    (src/FormatterRegistry.cc) and the properties of its registration and
    lookup protocol. *)

From Stdlib Require Import String Ascii List Bool Arith Lia OrderedTypeEx.
From Stdlib Require Import Permutation.
Import ListNotations.
Open Scope string_scope.
Open Scope list_scope.

(** ** Ordered associative containers of the C++ standard library

    [_byName] and [_nameForType] are used through [insert] and [find] only.
    Their types, [FactoryMap] and [StringMap], are typedefs of the class
    header; both calls are valid on [std::map] and on [std::multimap], so the
    kind of each container is a parameter of the development.

    A container is the list of its elements in iteration order, that is in
    the order of [std::less<std::string>] on the keys (lexicographic on
    unsigned characters, which is [String.ltb]), elements with equivalent keys
    in insertion order. *)

Inductive ContainerKind : Type :=
| UniqueKeys      (* std::map: at most one element per key *)
| EquivalentKeys. (* std::multimap: any number of elements per key *)

Module Assoc.

Section Container.

Variable V : Type.

Definition t : Type := list (string * V).

(** The default-constructed container. *)
Definition empty : t := [].

(** [find k] yields the first element, in iteration order, whose key is
    equivalent to [k] (what [lower_bound] followed by the key test of the
    red-black tree implementations returns), [None] standing for [end()]. *)
Fixpoint find (k : string) (m : t) : option V :=
  match m with
  | [] => None
  | (k', v) :: m' => if k' =? k then Some v else find k m'
  end.

(** Insertion at the upper bound of [k]: before the first element whose
    key is greater than [k], hence after all elements equivalent to [k]. *)
Fixpoint insert_upper (k : string) (v : V) (m : t) : t :=
  match m with
  | [] => [(k, v)]
  | (k', v') :: m' =>
      if k <? k' then (k, v) :: m else (k', v') :: insert_upper k v m'
  end.

(** [insert(value_type(k, v))]. On unique keys nothing is inserted when an
    element with an equivalent key is there already; the returned iterator
    is dropped by every caller in this program. *)
Definition insert (kind : ContainerKind) (k : string) (v : V) (m : t) : t :=
  match kind with
  | UniqueKeys =>
      match find k m with
      | Some _ => m
      | None => insert_upper k v m
      end
  | EquivalentKeys => insert_upper k v m
  end.

(** No element is followed by one with a smaller key. *)
Fixpoint ordered (m : t) : Prop :=
  match m with
  | [] => True
  | (k, _) :: m' => Forall (fun e => (fst e <? k) = false) m' /\ ordered m'
  end.

Definition keys (m : t) : list string := map fst m.

End Container.

Arguments empty {V}.
Arguments find {V} k m.
Arguments insert_upper {V} k v m.
Arguments insert {V} kind k v m.
Arguments ordered {V} m.
Arguments keys {V} m.

End Assoc.

(** ** Collaborators

    The registry works on types it does not define: [std::type_info], of
    which only [name()] is used, the [Policy] of pex_policy, of which
    [exists] and [getPolicy] are called through a [Policy::Ptr], and
    [Formatter], whose [Ptr] (what a factory returns) and [FactoryPtr] (a
    pointer to a function from [Policy::Ptr] to [Formatter::Ptr]) it stores
    and hands over. They are parameters, as are the kinds of the two
    containers declared in the header of the class. Whatever a factory does
    when it is called, an exception it throws included, is the value it
    yields in [Formatter_Ptr]: the registry passes it on as it is. *)

Record type_info : Type := { name : string }.

Class Collaborators : Type := {
  Policy : Type;
  Policy_exists : Policy -> string -> bool;
  Policy_getPolicy : Policy -> string -> option Policy;
  Formatter_Ptr : Type;
  FactoryMap_kind : ContainerKind;
  StringMap_kind : ContainerKind
}.

Inductive Exception : Type :=
| InvalidParameter (what : string). (* lsst::pex::exceptions::InvalidParameter *)

Definition what (e : Exception) : string :=
  match e with InvalidParameter w => w end.

(** The two exceptions of [lookupFormatter], as thrown there: both are of the
    class [InvalidParameter] and differ in what they say. *)
Definition UnknownType (ty : type_info) : Exception :=
  InvalidParameter
    ("No Formatter registered for Persistable type: " ++ name ty)%string.

Definition UnknownFormatter (persistableName : string) : Exception :=
  InvalidParameter
    ("No Formatter registered for Persistable name: " ++ persistableName)%string.

Section Registry.

Context {C : Collaborators}.

(** A shared pointer is [None] when it is null. *)
Definition Policy_Ptr : Type := option Policy.

Definition FactoryPtr : Type := Policy_Ptr -> Formatter_Ptr.

Definition FactoryMap : Type := Assoc.t FactoryPtr.

Definition StringMap : Type := Assoc.t string.

Record FormatterRegistry : Type := {
  _byName : FactoryMap;
  _nameForType : StringMap
}.

(** What a member function does outside the registry: the calls it makes
    on the caller's policy and on a registered factory, in order. *)
Inductive Call : Type :=
| Call_exists (policy : Policy) (key : string)
| Call_getPolicy (policy : Policy) (key : string)
| Call_factory (factory : FactoryPtr) (policy : Policy_Ptr).

(** A member function takes the registry it is called on to the value it
    returns or the exception it throws, the registry it leaves, and the
    calls it made. *)
Record Outcome (A : Type) : Type := {
  returned : Exception + A;
  this : FormatterRegistry;
  calls : list Call
}.

Arguments returned {A} o.
Arguments this {A} o.
Arguments calls {A} o.

Definition Method (A : Type) : Type := FormatterRegistry -> Outcome A.

Definition ret {A} (a : A) : Method A :=
  fun r => {| returned := inr a; this := r; calls := [] |}.

Definition throw {A} (e : Exception) : Method A :=
  fun r => {| returned := inl e; this := r; calls := [] |}.

Definition bind {A B} (m : Method A) (k : A -> Method B) : Method B :=
  fun r =>
    let o := m r in
    match returned o with
    | inl e => {| returned := inl e; this := this o; calls := calls o |}
    | inr a =>
        let o' := k a (this o) in
        {| returned := returned o'; this := this o';
           calls := calls o ++ calls o' |}
    end.

Notation "x <- m ;; k" := (bind m (fun x => k))
  (at level 61, m at next level, right associativity).
Notation "m ;; k" := (bind m (fun _ => k))
  (at level 61, right associativity).

(** Accesses to the two members. *)
Definition byName_insert (k : string) (v : FactoryPtr) : Method unit :=
  fun r =>
    {| returned := inr tt;
       this := {| _byName := Assoc.insert FactoryMap_kind k v (_byName r);
                  _nameForType := _nameForType r |};
       calls := [] |}.

Definition nameForType_insert (k : string) (v : string) : Method unit :=
  fun r =>
    {| returned := inr tt;
       this := {| _byName := _byName r;
                  _nameForType :=
                    Assoc.insert StringMap_kind k v (_nameForType r) |};
       calls := [] |}.

Definition byName_find (k : string) : Method (option FactoryPtr) :=
  fun r =>
    {| returned := inr (Assoc.find k (_byName r)); this := r; calls := [] |}.

Definition nameForType_find (k : string) : Method (option string) :=
  fun r =>
    {| returned := inr (Assoc.find k (_nameForType r)); this := r;
       calls := [] |}.

(** Calls out of the registry. *)
Definition call_exists (policy : Policy) (key : string) : Method bool :=
  fun r =>
    {| returned := inr (Policy_exists policy key); this := r;
       calls := [Call_exists policy key] |}.

Definition call_getPolicy (policy : Policy) (key : string)
  : Method Policy_Ptr :=
  fun r =>
    {| returned := inr (Policy_getPolicy policy key); this := r;
       calls := [Call_getPolicy policy key] |}.

Definition call_factory (factory : FactoryPtr) (policy : Policy_Ptr)
  : Method Formatter_Ptr :=
  fun r =>
    {| returned := inr (factory policy); this := r;
       calls := [Call_factory factory policy] |}.

(** [FormatterRegistry::FormatterRegistry]: both containers are
    default-constructed. The [Citizen] base and [markPersistent] keep no
    state of the registry. *)
Definition FormatterRegistry_new : FormatterRegistry :=
  {| _byName := Assoc.empty; _nameForType := Assoc.empty |}.

(** [FormatterRegistry::registerFormatter]. *)
Definition registerFormatter
    (persistableName : string) (persistableType : type_info)
    (factory : FactoryPtr) : Method unit :=
  byName_insert persistableName factory ;;
  nameForType_insert (name persistableType) persistableName.

(** [FormatterRegistry::lookupFormatter(std::string const&, Policy::Ptr)]. *)
Definition lookupFormatter_string
    (persistableName : string) (policy : Policy_Ptr) : Method Formatter_Ptr :=
  it <- byName_find persistableName ;;
  match it with
  | None =>
      throw (InvalidParameter
               ("No Formatter registered for Persistable name: " ++
                persistableName)%string)
  | Some factory =>
      formatterPolicy <-
        match policy with
        | None => ret None
        | Some p =>
            present <- call_exists p persistableName ;;
            if present then call_getPolicy p persistableName else ret None
        end ;;
      call_factory factory formatterPolicy
  end.

(** [FormatterRegistry::lookupFormatter(std::type_info const&, Policy::Ptr)]. *)
Definition lookupFormatter_type_info
    (persistableType : type_info) (policy : Policy_Ptr)
  : Method Formatter_Ptr :=
  it <- nameForType_find (name persistableType) ;;
  match it with
  | None =>
      throw (InvalidParameter
               ("No Formatter registered for Persistable type: " ++
                name persistableType)%string)
  | Some persistableName => lookupFormatter_string persistableName policy
  end.

(** ** Histories of a registry

    The operations the class offers on an instance, and the registry a
    sequence of them leaves. *)

Inductive Op : Type :=
| Op_register (persistableName : string) (persistableType : type_info)
              (factory : FactoryPtr)
| Op_lookup_type_info (persistableType : type_info) (policy : Policy_Ptr)
| Op_lookup_string (persistableName : string) (policy : Policy_Ptr).

Definition exec (r : FormatterRegistry) (o : Op) : FormatterRegistry :=
  match o with
  | Op_register n ty f => this (registerFormatter n ty f r)
  | Op_lookup_type_info ty policy => this (lookupFormatter_type_info ty policy r)
  | Op_lookup_string n policy => this (lookupFormatter_string n policy r)
  end.

Definition run_from (r : FormatterRegistry) (h : list Op) : FormatterRegistry :=
  fold_left exec h r.

Definition run (h : list Op) : FormatterRegistry :=
  run_from FormatterRegistry_new h.

Definition reachable (r : FormatterRegistry) : Prop := exists h, r = run h.

(** The names and the type identities registered in a history. *)
Fixpoint registered_names (h : list Op) : list string :=
  match h with
  | [] => []
  | Op_register n _ _ :: h' => n :: registered_names h'
  | _ :: h' => registered_names h'
  end.

Fixpoint registered_types (h : list Op) : list string :=
  match h with
  | [] => []
  | Op_register _ ty _ :: h' => name ty :: registered_types h'
  | _ :: h' => registered_types h'
  end.

(** The factory of the first registration under a name, and the name of the
    first registration of a type identity. *)
Fixpoint first_factory (h : list Op) (n : string) : option FactoryPtr :=
  match h with
  | [] => None
  | Op_register n' _ f :: h' =>
      if n' =? n then Some f else first_factory h' n
  | _ :: h' => first_factory h' n
  end.

Fixpoint first_name (h : list Op) (ty : string) : option string :=
  match h with
  | [] => None
  | Op_register n ty' _ :: h' =>
      if name ty' =? ty then Some n else first_name h' ty
  | _ :: h' => first_name h' ty
  end.

(** The policy [lookupFormatter] hands to the factory, and the calls on the
    caller's policy that yield it. *)
Definition formatterPolicy_of (policy : Policy_Ptr) (n : string) : Policy_Ptr :=
  match policy with
  | Some p => if Policy_exists p n then Policy_getPolicy p n else None
  | None => None
  end.

Definition policy_calls (policy : Policy_Ptr) (n : string) : list Call :=
  match policy with
  | Some p =>
      if Policy_exists p n
      then [Call_exists p n; Call_getPolicy p n]
      else [Call_exists p n]
  | None => []
  end.

(** Both containers keep their elements in key order. *)
Definition well_formed (r : FormatterRegistry) : Prop :=
  Assoc.ordered (_byName r) /\ Assoc.ordered (_nameForType r).

(** ** The process

    [getInstance] keeps the registry behind a function-scope static pointer,
    initialised with [new FormatterRegistry] when control first passes
    through its declaration. A process is that static and the registries on
    the free store, by address. *)

Definition Address : Type := nat.

Record Process : Type := {
  registry : option Address;      (* [None] until the static is initialised *)
  store : list FormatterRegistry
}.

Definition Process_start : Process := {| registry := None; store := [] |}.

(** [FormatterRegistry::getInstance]. *)
Definition getInstance (p : Process) : Address * Process :=
  match registry p with
  | Some a => (a, p)
  | None =>
      let a := length (store p) in
      (a, {| registry := Some a;
             store := store p ++ [FormatterRegistry_new] |})
  end.

Fixpoint store_set (a : Address) (r : FormatterRegistry)
    (s : list FormatterRegistry) : list FormatterRegistry :=
  match s, a with
  | [], _ => []
  | _ :: s', O => r :: s'
  | x :: s', S a' => x :: store_set a' r s'
  end.

(** A member function called through a reference to the registry at [a].
    A reference that [getInstance] did not return designates nothing. *)
Definition call_at {A} (a : Address) (m : Method A) (p : Process)
  : option (Outcome A) * Process :=
  match nth_error (store p) a with
  | None => (None, p)
  | Some r =>
      let o := m r in
      (Some o, {| registry := registry p;
                  store := store_set a (this o) (store p) |})
  end.

Inductive ProcessOp : Type :=
| POp_getInstance
| POp_call (a : Address) (o : Op).

Definition pexec (p : Process) (o : ProcessOp) : Process :=
  match o with
  | POp_getInstance => snd (getInstance p)
  | POp_call a (Op_register n ty f) => snd (call_at a (registerFormatter n ty f) p)
  | POp_call a (Op_lookup_type_info ty policy) =>
      snd (call_at a (lookupFormatter_type_info ty policy) p)
  | POp_call a (Op_lookup_string n policy) =>
      snd (call_at a (lookupFormatter_string n policy) p)
  end.

Definition prun_from (p : Process) (h : list ProcessOp) : Process :=
  fold_left pexec h p.

(** The store of a process holds no registry until the static of
    [getInstance] is initialised, and one registry, the one the static points
    to, from then on. *)
Definition one_instance (p : Process) : Prop :=
  (registry p = None /\ store p = []) \/
  (exists r, registry p = Some 0 /\ store p = [r]).

(** Two registries that no lookup tells apart: by name and by type
    identity, each lookup returns or throws the same and makes the same
    calls. *)
Definition same_lookups (r r' : FormatterRegistry) : Prop :=
  (forall n policy,
     returned (lookupFormatter_string n policy r) =
       returned (lookupFormatter_string n policy r') /\
     calls (lookupFormatter_string n policy r) =
       calls (lookupFormatter_string n policy r')) /\
  (forall ty policy,
     returned (lookupFormatter_type_info ty policy r) =
       returned (lookupFormatter_type_info ty policy r') /\
     calls (lookupFormatter_type_info ty policy r) =
       calls (lookupFormatter_type_info ty policy r')).

(** The operations of a process history made through the reference [a]. *)
Fixpoint ops_at (a : Address) (ph : list ProcessOp) : list Op :=
  match ph with
  | [] => []
  | POp_getInstance :: ph' => ops_at a ph'
  | POp_call a' o :: ph' =>
      if Nat.eqb a' a then o :: ops_at a ph' else ops_at a ph'
  end.

End Registry.

Arguments returned {C A} o.
Arguments this {C A} o.
Arguments calls {C A} o.

(** ** A concrete set of collaborators

    Policies as trees of named sub-policies, formatters named by the text
    their factory builds. *)

Inductive PolicyTree : Type :=
| PolicyEmpty
| PolicyEntry (key : string) (sub : PolicyTree) (rest : PolicyTree).

Fixpoint PolicyTree_getPolicy (p : PolicyTree) (k : string)
  : option PolicyTree :=
  match p with
  | PolicyEmpty => None
  | PolicyEntry key sub rest =>
      if key =? k then Some sub else PolicyTree_getPolicy rest k
  end.

Definition PolicyTree_exists (p : PolicyTree) (k : string) : bool :=
  match PolicyTree_getPolicy p k with Some _ => true | None => false end.

Fixpoint PolicyTree_keys (p : PolicyTree) : list string :=
  match p with
  | PolicyEmpty => []
  | PolicyEntry key _ rest => key :: PolicyTree_keys rest
  end.

Definition Trees (factories names : ContainerKind) : Collaborators :=
  {| Policy := PolicyTree;
     Policy_exists := PolicyTree_exists;
     Policy_getPolicy := PolicyTree_getPolicy;
     Formatter_Ptr := string;
     FactoryMap_kind := factories;
     StringMap_kind := names |}.

(** The factory of a formatter that shows its label and the keys of the
    policy it was built from. *)
Definition labelled (label : string) {factories names : ContainerKind}
  : @FactoryPtr (Trees factories names) :=
  fun policy =>
    match policy with
    | None => label
    | Some p => (label ++ ":" ++ String.concat "," (PolicyTree_keys p))%string
    end.

(** Two persistable types, under the names [typeid] gives them, and a policy
    with a sub-policy for the first. *)
Definition Foo_type : type_info := {| name := "3Foo" |}.

Definition Bar_type : type_info := {| name := "3Bar" |}.

Definition Foo_policy : PolicyTree :=
  PolicyEntry "Foo" (PolicyEntry "precision" PolicyEmpty PolicyEmpty)
    PolicyEmpty.

(** One registration of [Foo], and two registrations under one name. *)
Definition Foo_history {factories names : ContainerKind}
  : list (@Op (Trees factories names)) :=
  [Op_register "Foo" Foo_type (labelled "FooFormatter")].

Definition Dup_history {factories names : ContainerKind}
  : list (@Op (Trees factories names)) :=
  [Op_register "Dup" Foo_type (labelled "first");
   Op_register "Dup" Bar_type (labelled "second")].

(** The registrations of three modules, each of its own type, and the same
    in another order of initialisation. *)
Definition Baz_type : type_info := {| name := "3Baz" |}.

Definition Modules_history {factories names : ContainerKind}
  : list (@Op (Trees factories names)) :=
  [Op_register "Foo" Foo_type (labelled "FooFormatter");
   Op_register "Bar" Bar_type (labelled "BarFormatter");
   Op_register "Baz" Baz_type (labelled "BazFormatter")].

Definition Modules_history' {factories names : ContainerKind}
  : list (@Op (Trees factories names)) :=
  [Op_register "Baz" Baz_type (labelled "BazFormatter");
   Op_register "Foo" Foo_type (labelled "FooFormatter");
   Op_register "Bar" Bar_type (labelled "BarFormatter")].

(** One type identity registered under two names. *)
Definition Rebound_history {factories names : ContainerKind}
  : list (@Op (Trees factories names)) :=
  [Op_register "Foo" Foo_type (labelled "first");
   Op_register "Bar" Foo_type (labelled "second")].

(** Two holders of the registry: each obtains the reference and registers
    through it. *)
Definition Holders_history {factories names : ContainerKind}
  : list (@ProcessOp (Trees factories names)) :=
  [POp_call 0 (Op_register "Dup" Foo_type (labelled "first"));
   POp_getInstance;
   POp_call 0 (Op_register "Dup" Bar_type (labelled "second"))].

(** ** Facts on the string order *)

Lemma ltb_lt (a b : string) : (a <? b) = true <-> String_as_OT.lt a b.
Proof.
  unfold String.ltb. rewrite <- String_as_OT.cmp_lt. unfold String_as_OT.cmp.
  destruct (a ?= b); split; intro H; congruence.
Qed.

Lemma ltb_irrefl (a : string) : (a <? a) = false.
Proof.
  destruct (a <? a) eqn:E; [|reflexivity].
  apply ltb_lt in E. exfalso. exact (String_as_OT.lt_not_eq _ _ E eq_refl).
Qed.

Lemma ltb_trans (a b c : string) :
  (a <? b) = true -> (b <? c) = true -> (a <? c) = true.
Proof.
  rewrite !ltb_lt. apply String_as_OT.lt_trans.
Qed.

Lemma ltb_asym (a b : string) : (a <? b) = true -> (b <? a) = false.
Proof.
  intro H. destruct (b <? a) eqn:E; [|reflexivity].
  pose proof (ltb_trans _ _ _ H E) as C. rewrite ltb_irrefl in C. discriminate.
Qed.

(** ** Facts on the containers *)

Section AssocFacts.

Context {V : Type}.
Implicit Types (m : Assoc.t V) (k : string) (v : V).

Lemma find_Some_In k v m : Assoc.find k m = Some v -> In (k, v) m.
Proof.
  induction m as [|[k' v'] m IH]; simpl; [discriminate|].
  destruct (String.eqb_spec k' k) as [->|_].
  - intros [= ->]. now left.
  - intro H. right. auto.
Qed.

Lemma In_find k v m : In (k, v) m -> exists v', Assoc.find k m = Some v'.
Proof.
  induction m as [|[k' v'] m IH]; simpl; [tauto|].
  intros [[= -> ->]|H].
  - rewrite String.eqb_refl. eauto.
  - destruct (k' =? k); eauto.
Qed.

Lemma In_keys k v m : In (k, v) m -> In k (Assoc.keys m).
Proof.
  intro H. unfold Assoc.keys. change k with (fst (k, v)). now apply in_map.
Qed.

Lemma find_None_keys k m : Assoc.find k m = None <-> ~ In k (Assoc.keys m).
Proof.
  induction m as [|[k' v'] m IH]; simpl; [tauto|].
  destruct (String.eqb_spec k' k) as [->|N].
  - split; [discriminate|]. intros H. exfalso. apply H. now left.
  - rewrite IH. tauto.
Qed.

Lemma keys_find k m : In k (Assoc.keys m) -> exists v, Assoc.find k m = Some v.
Proof.
  intro H. destruct (Assoc.find k m) as [v|] eqn:E; [eauto|].
  apply find_None_keys in E. contradiction.
Qed.

(** The elements present before an insertion are all kept, in their
    order; at most the new element is added. *)
Lemma insert_upper_split k v m :
  exists front back,
    m = front ++ back /\ Assoc.insert_upper k v m = front ++ (k, v) :: back.
Proof.
  induction m as [|[k' v'] m (front & back & Hm & Hi)]; simpl.
  - exists [], []. auto.
  - destruct (k <? k').
    + exists [], ((k', v') :: m). auto.
    + exists ((k', v') :: front), back. simpl. now rewrite <- Hm, Hi.
Qed.

Lemma insert_split kind k v m :
  exists front back,
    m = front ++ back /\
    (Assoc.insert kind k v m = front ++ back \/
     Assoc.insert kind k v m = front ++ (k, v) :: back).
Proof.
  destruct (insert_upper_split k v m) as (front & back & Hm & Hi).
  destruct kind; simpl.
  - destruct (Assoc.find k m).
    + exists [], m. auto.
    + exists front, back. auto.
  - exists front, back. auto.
Qed.

Lemma In_insert_upper k v m e :
  In e (Assoc.insert_upper k v m) <-> e = (k, v) \/ In e m.
Proof.
  destruct (insert_upper_split k v m) as (front & back & Hm & ->).
  rewrite Hm, !in_app_iff. simpl. intuition congruence.
Qed.

Lemma insert_incl kind k v m e : In e m -> In e (Assoc.insert kind k v m).
Proof.
  intro H. destruct kind; simpl.
  - destruct (Assoc.find k m); [assumption|]. apply In_insert_upper. auto.
  - apply In_insert_upper. auto.
Qed.

Lemma In_insert kind k v m e :
  In e (Assoc.insert kind k v m) -> e = (k, v) \/ In e m.
Proof.
  destruct kind; simpl.
  - destruct (Assoc.find k m); [auto|]. apply In_insert_upper.
  - apply In_insert_upper.
Qed.

Lemma key_insert kind k v m : In k (Assoc.keys (Assoc.insert kind k v m)).
Proof.
  destruct kind; simpl.
  - destruct (Assoc.find k m) as [v'|] eqn:E.
    + eapply In_keys, find_Some_In, E.
    + eapply In_keys, In_insert_upper. now left.
  - eapply In_keys, In_insert_upper. now left.
Qed.

Lemma keys_insert_incl kind k v m k0 :
  In k0 (Assoc.keys m) -> In k0 (Assoc.keys (Assoc.insert kind k v m)).
Proof.
  unfold Assoc.keys. rewrite !in_map_iff. intros (e & E & H).
  exists e. split; [assumption|]. now apply insert_incl.
Qed.

Lemma find_insert_upper_other k v m k0 :
  k <> k0 -> Assoc.find k0 (Assoc.insert_upper k v m) = Assoc.find k0 m.
Proof.
  intro N. induction m as [|[k' v'] m IH]; simpl.
  - destruct (String.eqb_spec k k0); congruence.
  - destruct (k <? k'); simpl.
    + destruct (String.eqb_spec k k0); congruence.
    + now rewrite IH.
Qed.

Lemma ordered_find_None k k' m :
  (k <? k') = true ->
  Forall (fun e : string * V => (fst e <? k') = false) m ->
  Assoc.find k m = None.
Proof.
  intros Hlt Hall. apply find_None_keys. unfold Assoc.keys.
  rewrite in_map_iff. intros ([k2 v2] & E & Hin). simpl in E. subst k2.
  rewrite Forall_forall in Hall. specialize (Hall _ Hin). simpl in Hall.
  congruence.
Qed.

Lemma find_insert_upper_same k v m :
  Assoc.ordered m ->
  Assoc.find k (Assoc.insert_upper k v m) =
    match Assoc.find k m with Some v' => Some v' | None => Some v end.
Proof.
  induction m as [|[k' v'] m IH]; simpl.
  - now rewrite String.eqb_refl.
  - intros [Hall Hord]. destruct (k <? k') eqn:Hlt; simpl.
    + rewrite String.eqb_refl.
      destruct (String.eqb_spec k' k) as [->|_].
      * rewrite ltb_irrefl in Hlt. discriminate.
      * now rewrite (ordered_find_None k k' m Hlt Hall).
    + destruct (k' =? k); auto.
Qed.

Lemma ordered_insert_upper k v m :
  Assoc.ordered m -> Assoc.ordered (Assoc.insert_upper k v m).
Proof.
  induction m as [|[k' v'] m IH]; simpl.
  - auto.
  - intros [Hall Hord]. destruct (k <? k') eqn:Hlt; simpl.
    + repeat split; auto. constructor.
      * simpl. now apply ltb_asym.
      * rewrite Forall_forall in *. intros e He.
        destruct (fst e <? k) eqn:E; [|reflexivity].
        rewrite <- (Hall e He). symmetry. eapply ltb_trans; eassumption.
    + split; auto. rewrite Forall_forall in *. intros e He.
      apply In_insert_upper in He as [->|He]; auto.
Qed.

Lemma ordered_insert kind k v m :
  Assoc.ordered m -> Assoc.ordered (Assoc.insert kind k v m).
Proof.
  intro H. destruct kind; simpl.
  - destruct (Assoc.find k m); auto using ordered_insert_upper.
  - now apply ordered_insert_upper.
Qed.

(** What [find] sees after an insertion: the element that was first for the
    key stays first, whatever the kind of the container. *)
Lemma find_insert kind k v m k0 :
  Assoc.ordered m ->
  Assoc.find k0 (Assoc.insert kind k v m) =
    match Assoc.find k0 m with
    | Some v' => Some v'
    | None => if k =? k0 then Some v else None
    end.
Proof.
  intro Hord.
  assert (U : Assoc.find k0 (Assoc.insert_upper k v m) =
              match Assoc.find k0 m with
              | Some v' => Some v'
              | None => if k =? k0 then Some v else None
              end).
  { destruct (String.eqb_spec k k0) as [->|N].
    - now apply find_insert_upper_same.
    - rewrite find_insert_upper_other by assumption.
      now destruct (Assoc.find k0 m). }
  destruct kind; simpl; [|exact U].
  destruct (Assoc.find k m) eqn:Hk; [|exact U].
  destruct (String.eqb_spec k k0) as [<-|N].
  - now rewrite Hk.
  - now destruct (Assoc.find k0 m).
Qed.

End AssocFacts.

(** ** Facts on the member functions *)

Section RegistryFacts.

Context {C : Collaborators}.
Implicit Types (r : FormatterRegistry) (h : list Op) (n : string)
  (ty : type_info) (f : FactoryPtr) (policy : Policy_Ptr).

Lemma registerFormatter_eq n ty f r :
  registerFormatter n ty f r =
    {| returned := inr tt;
       this := {| _byName := Assoc.insert FactoryMap_kind n f (_byName r);
                  _nameForType :=
                    Assoc.insert StringMap_kind (name ty) n (_nameForType r) |};
       calls := [] |}.
Proof. reflexivity. Qed.

Lemma lookupFormatter_string_absent n policy r :
  Assoc.find n (_byName r) = None ->
  lookupFormatter_string n policy r =
    {| returned :=
         inl (InvalidParameter
                ("No Formatter registered for Persistable name: " ++ n)%string);
       this := r; calls := [] |}.
Proof.
  intro H. unfold lookupFormatter_string, bind, byName_find. simpl.
  now rewrite H.
Qed.

Lemma lookupFormatter_string_present n policy r f :
  Assoc.find n (_byName r) = Some f ->
  lookupFormatter_string n policy r =
    {| returned := inr (f (formatterPolicy_of policy n));
       this := r;
       calls := policy_calls policy n ++
                [Call_factory f (formatterPolicy_of policy n)] |}.
Proof.
  intro H. unfold lookupFormatter_string, bind, byName_find. simpl.
  rewrite H. destruct policy as [p|]; simpl; [|reflexivity].
  destruct (Policy_exists p n); reflexivity.
Qed.

Lemma lookupFormatter_type_info_absent ty policy r :
  Assoc.find (name ty) (_nameForType r) = None ->
  lookupFormatter_type_info ty policy r =
    {| returned :=
         inl (InvalidParameter
                ("No Formatter registered for Persistable type: " ++
                 name ty)%string);
       this := r; calls := [] |}.
Proof.
  intro H. unfold lookupFormatter_type_info, bind, nameForType_find. simpl.
  now rewrite H.
Qed.

Lemma lookupFormatter_type_info_present ty policy r n :
  Assoc.find (name ty) (_nameForType r) = Some n ->
  lookupFormatter_type_info ty policy r = lookupFormatter_string n policy r.
Proof.
  intro H. unfold lookupFormatter_type_info, bind, nameForType_find.
  cbn [returned this calls]. rewrite H.
  now destruct (lookupFormatter_string n policy r) as [[e|a] r' c].
Qed.

Lemma lookupFormatter_string_this n policy r :
  this (lookupFormatter_string n policy r) = r.
Proof.
  destruct (Assoc.find n (_byName r)) as [f|] eqn:E.
  - now rewrite (lookupFormatter_string_present _ _ _ _ E).
  - now rewrite (lookupFormatter_string_absent _ _ _ E).
Qed.

Lemma lookupFormatter_type_info_this ty policy r :
  this (lookupFormatter_type_info ty policy r) = r.
Proof.
  destruct (Assoc.find (name ty) (_nameForType r)) as [n|] eqn:E.
  - rewrite (lookupFormatter_type_info_present _ _ _ _ E).
    apply lookupFormatter_string_this.
  - now rewrite (lookupFormatter_type_info_absent _ _ _ E).
Qed.

(** *** Histories *)

Lemma run_from_app r h1 h2 : run_from r (h1 ++ h2) = run_from (run_from r h1) h2.
Proof. apply fold_left_app. Qed.

Lemma run_app h1 h2 : run (h1 ++ h2) = run_from (run h1) h2.
Proof. apply run_from_app. Qed.

Lemma well_formed_new : well_formed FormatterRegistry_new.
Proof. split; exact I. Qed.

Lemma well_formed_exec r o : well_formed r -> well_formed (exec r o).
Proof.
  intros [Hb Hn]. destruct o as [n ty f|ty policy|n policy]; cbn [exec].
  - rewrite registerFormatter_eq. split; cbn [this _byName _nameForType];
      now apply ordered_insert.
  - rewrite lookupFormatter_type_info_this. now split.
  - rewrite lookupFormatter_string_this. now split.
Qed.

Lemma well_formed_run_from h : forall r, well_formed r -> well_formed (run_from r h).
Proof.
  induction h as [|o h IH]; simpl; intros r Hr; [assumption|].
  apply IH, well_formed_exec, Hr.
Qed.

Lemma well_formed_run h : well_formed (run h).
Proof. apply well_formed_run_from, well_formed_new. Qed.

Lemma first_factory_app h1 h2 n :
  first_factory (h1 ++ h2) n =
    match first_factory h1 n with
    | Some f => Some f
    | None => first_factory h2 n
    end.
Proof.
  induction h1 as [|[n' ty f|ty policy|n' policy] h1 IH]; simpl; auto.
  destruct (n' =? n); auto.
Qed.

Lemma first_name_app h1 h2 t :
  first_name (h1 ++ h2) t =
    match first_name h1 t with
    | Some n => Some n
    | None => first_name h2 t
    end.
Proof.
  induction h1 as [|[n' ty f|ty policy|n' policy] h1 IH]; simpl; auto.
  destruct (name ty =? t); auto.
Qed.

Lemma first_factory_None h n :
  first_factory h n = None <-> ~ In n (registered_names h).
Proof.
  induction h as [|[n' ty f|ty policy|n' policy] h IH]; simpl; try tauto.
  destruct (String.eqb_spec n' n) as [->|N].
  - split; [discriminate|]. intro H. exfalso. apply H. now left.
  - rewrite IH. tauto.
Qed.

Lemma first_name_None h t :
  first_name h t = None <-> ~ In t (registered_types h).
Proof.
  induction h as [|[n' ty f|ty policy|n' policy] h IH]; simpl; try tauto.
  destruct (String.eqb_spec (name ty) t) as [->|N].
  - split; [discriminate|]. intro H. exfalso. apply H. now left.
  - rewrite IH. tauto.
Qed.

(** [find] on the containers of a history is the first registration. *)
Lemma find_byName_run_from h : forall r n,
  well_formed r ->
  Assoc.find n (_byName (run_from r h)) =
    match Assoc.find n (_byName r) with
    | Some f => Some f
    | None => first_factory h n
    end.
Proof.
  induction h as [|o h IH]; intros r n Hr; simpl.
  - now destruct (Assoc.find n (_byName r)).
  - change (fold_left exec h (exec r o)) with (run_from (exec r o) h).
    rewrite IH by (apply well_formed_exec, Hr).
    destruct o as [n' ty f|ty policy|n' policy]; cbn [exec].
    + rewrite registerFormatter_eq. cbn [this _byName _nameForType].
      rewrite find_insert by apply Hr.
      destruct (Assoc.find n (_byName r)); [reflexivity|].
      now destruct (n' =? n).
    + now rewrite lookupFormatter_type_info_this.
    + now rewrite lookupFormatter_string_this.
Qed.

Lemma find_nameForType_run_from h : forall r t,
  well_formed r ->
  Assoc.find t (_nameForType (run_from r h)) =
    match Assoc.find t (_nameForType r) with
    | Some n => Some n
    | None => first_name h t
    end.
Proof.
  induction h as [|o h IH]; intros r t Hr; simpl.
  - now destruct (Assoc.find t (_nameForType r)).
  - change (fold_left exec h (exec r o)) with (run_from (exec r o) h).
    rewrite IH by (apply well_formed_exec, Hr).
    destruct o as [n' ty f|ty policy|n' policy]; cbn [exec].
    + rewrite registerFormatter_eq. cbn [this _byName _nameForType].
      rewrite find_insert by apply Hr.
      destruct (Assoc.find t (_nameForType r)); [reflexivity|].
      now destruct (name ty =? t).
    + now rewrite lookupFormatter_type_info_this.
    + now rewrite lookupFormatter_string_this.
Qed.

Lemma find_byName_run h n :
  Assoc.find n (_byName (run h)) = first_factory h n.
Proof.
  unfold run. now rewrite find_byName_run_from by apply well_formed_new.
Qed.

Lemma find_nameForType_run h t :
  Assoc.find t (_nameForType (run h)) = first_name h t.
Proof.
  unfold run. now rewrite find_nameForType_run_from by apply well_formed_new.
Qed.

(** Lookups of what no registration of the history named. *)
Lemma lookupFormatter_type_info_unregistered h ty policy :
  ~ In (name ty) (registered_types h) ->
  lookupFormatter_type_info ty policy (run h) =
    {| returned := inl (UnknownType ty); this := run h; calls := [] |}.
Proof.
  intro H. apply lookupFormatter_type_info_absent.
  rewrite find_nameForType_run. now apply first_name_None.
Qed.

Lemma lookupFormatter_string_unregistered h n policy :
  ~ In n (registered_names h) ->
  lookupFormatter_string n policy (run h) =
    {| returned := inl (UnknownFormatter n); this := run h; calls := [] |}.
Proof.
  intro H. apply lookupFormatter_string_absent.
  rewrite find_byName_run. now apply first_factory_None.
Qed.

(** The name a type identity was first registered with has a factory. *)
Lemma first_name_first_factory h : forall t n,
  first_name h t = Some n -> exists f, first_factory h n = Some f.
Proof.
  induction h as [|[n' ty f|ty policy|n' policy] h IH]; simpl; intros t n H;
    try discriminate; eauto.
  destruct (String.eqb_spec n' n) as [->|N]; [eauto|].
  destruct (name ty =? t); [congruence|eauto].
Qed.

End RegistryFacts.

(** ** Facts on the process *)

Section ProcessFacts.

Context {C : Collaborators}.
Implicit Types (p : Process) (a : Address) (r : FormatterRegistry).

Lemma getInstance_registry p :
  registry (snd (getInstance p)) = Some (fst (getInstance p)).
Proof.
  unfold getInstance. destruct (registry p) as [a|] eqn:E; simpl; auto.
Qed.

Lemma getInstance_initialised p a :
  registry p = Some a -> getInstance p = (a, p).
Proof. intro H. unfold getInstance. now rewrite H. Qed.

Lemma call_at_registry {A} a (m : Method A) p :
  registry (snd (call_at a m p)) = registry p.
Proof. unfold call_at. now destruct (nth_error (store p) a). Qed.

Lemma pexec_registry p o a :
  registry p = Some a -> registry (pexec p o) = Some a.
Proof.
  intro H. destruct o as [|a' [n ty f|ty policy|n policy]]; cbn [pexec].
  - now rewrite (getInstance_initialised _ _ H).
  - now rewrite call_at_registry.
  - now rewrite call_at_registry.
  - now rewrite call_at_registry.
Qed.

Lemma prun_from_registry h : forall p a,
  registry p = Some a -> registry (prun_from p h) = Some a.
Proof.
  induction h as [|o h IH]; intros p a H; simpl; [assumption|].
  apply IH, pexec_registry, H.
Qed.

Lemma one_instance_getInstance p :
  one_instance p -> one_instance (snd (getInstance p)).
Proof.
  intros [[Hr Hs]|(r & Hr & Hs)]; unfold getInstance; rewrite Hr; simpl.
  - right. exists FormatterRegistry_new. now rewrite Hs.
  - right. eauto.
Qed.

Lemma one_instance_call_at {A} a (m : Method A) p :
  one_instance p -> one_instance (snd (call_at a m p)).
Proof.
  intro H. unfold call_at.
  destruct (nth_error (store p) a) as [r0|] eqn:E; [|exact H].
  destruct H as [[Hr Hs]|(r & Hr & Hs)]; rewrite Hs in *.
  - destruct a; discriminate.
  - destruct a as [|[|a]]; try discriminate. right. simpl. eauto.
Qed.

Lemma one_instance_pexec p o : one_instance p -> one_instance (pexec p o).
Proof.
  intro H. destruct o as [|a' [n ty f|ty policy|n policy]]; cbn [pexec];
    auto using one_instance_getInstance, one_instance_call_at.
Qed.

Lemma one_instance_prun_from h : forall p,
  one_instance p -> one_instance (prun_from p h).
Proof.
  induction h as [|o h IH]; intros p H; simpl; [assumption|].
  apply IH, one_instance_pexec, H.
Qed.

Lemma one_instance_start : one_instance Process_start.
Proof. left. split; reflexivity. Qed.

End ProcessFacts.

(** ** Properties of the registration and lookup protocol *)

Section Protocol.

Context {C : Collaborators}.
Implicit Types (r : FormatterRegistry) (h : list Op) (n : string)
  (ty : type_info) (f : FactoryPtr) (policy : Policy_Ptr).

(** C1, as amended. After [registerFormatter n ty f], whatever was done
    before and is done after, [lookupFormatter] of [n] and of [ty] both
    return without an exception. The lookup of [n] returns what the factory
    first registered under [n] builds, and the lookup of [ty] what the
    factory first registered under the name [ty] was first registered with
    builds. That factory is [f] when [n] (for the lookup of [ty]: [n] and
    [ty]) had not been registered before. *)
Theorem C1_round_trip h1 n ty f h2 policy :
  let h := h1 ++ Op_register n ty f :: h2 in
  (exists f1,
      first_factory h n = Some f1 /\
      lookupFormatter_string n policy (run h) =
        {| returned := inr (f1 (formatterPolicy_of policy n));
           this := run h;
           calls := policy_calls policy n ++
                    [Call_factory f1 (formatterPolicy_of policy n)] |}) /\
  (exists n1 f1,
      first_name h (name ty) = Some n1 /\
      first_factory h n1 = Some f1 /\
      lookupFormatter_type_info ty policy (run h) =
        {| returned := inr (f1 (formatterPolicy_of policy n1));
           this := run h;
           calls := policy_calls policy n1 ++
                    [Call_factory f1 (formatterPolicy_of policy n1)] |}) /\
  (~ In n (registered_names h1) ->
   returned (lookupFormatter_string n policy (run h)) =
     inr (f (formatterPolicy_of policy n))) /\
  (~ In n (registered_names h1) -> ~ In (name ty) (registered_types h1) ->
   returned (lookupFormatter_type_info ty policy (run h)) =
     inr (f (formatterPolicy_of policy n))).
Proof.
  intro h.
  assert (Hf : first_factory h n =
               match first_factory h1 n with Some f' => Some f' | None => Some f end).
  { unfold h. rewrite first_factory_app. simpl. now rewrite String.eqb_refl. }
  assert (Hn : first_name h (name ty) =
               match first_name h1 (name ty) with Some n' => Some n' | None => Some n end).
  { unfold h. rewrite first_name_app. simpl. now rewrite String.eqb_refl. }
  assert (Hs : exists f1, first_factory h n = Some f1).
  { rewrite Hf. destruct (first_factory h1 n); eauto. }
  assert (Ht : exists n1, first_name h (name ty) = Some n1).
  { rewrite Hn. destruct (first_name h1 (name ty)); eauto. }
  repeat split.
  - destruct Hs as (f1 & Hs). exists f1. split; [assumption|].
    apply lookupFormatter_string_present. now rewrite find_byName_run.
  - destruct Ht as (n1 & Ht).
    destruct (first_name_first_factory _ _ _ Ht) as (f1 & Hf1).
    exists n1, f1. repeat split; try assumption.
    rewrite (lookupFormatter_type_info_present ty policy (run h) n1)
      by now rewrite find_nameForType_run.
    apply lookupFormatter_string_present. now rewrite find_byName_run.
  - intro Hfresh. apply first_factory_None in Hfresh. rewrite Hfresh in Hf.
    rewrite (lookupFormatter_string_present n policy (run h) f)
      by now rewrite find_byName_run.
    reflexivity.
  - intros Hfresh Htfresh.
    apply first_factory_None in Hfresh. rewrite Hfresh in Hf.
    apply first_name_None in Htfresh. rewrite Htfresh in Hn.
    rewrite (lookupFormatter_type_info_present ty policy (run h) n)
      by now rewrite find_nameForType_run.
    rewrite (lookupFormatter_string_present n policy (run h) f)
      by now rewrite find_byName_run.
    reflexivity.
Qed.

(** C2. The lookup of a type identity that no registration of the history
    named throws [UnknownType], whatever policy is given, before it calls
    anything, and leaves the registry as it was. *)
Theorem C2_unknown_type h ty policy :
  ~ In (name ty) (registered_types h) ->
  lookupFormatter_type_info ty policy (run h) =
    {| returned := inl (UnknownType ty); this := run h; calls := [] |}.
Proof.
  intro H. now apply lookupFormatter_type_info_unregistered.
Qed.

(** C3. The lookup of a name that no registration of the history was made
    under throws [UnknownFormatter], whatever policy is given. *)
Theorem C3_unknown_name h n policy :
  ~ In n (registered_names h) ->
  lookupFormatter_string n policy (run h) =
    {| returned := inl (UnknownFormatter n); this := run h; calls := [] |}.
Proof.
  intro H. now apply lookupFormatter_string_unregistered.
Qed.

(** C4. For a registered name [n], with [f] the factory registered under it:
    given a policy in which [exists n] holds, the lookup of [n] calls [f] on
    [getPolicy n] of that policy; given no policy, or a policy in which
    [exists n] does not hold, it calls [f] on the null policy. *)
Theorem C4_configuration_pass_through h n f :
  first_factory h n = Some f ->
  (forall p, Policy_exists p n = true ->
     lookupFormatter_string n (Some p) (run h) =
       {| returned := inr (f (Policy_getPolicy p n));
          this := run h;
          calls := [Call_exists p n; Call_getPolicy p n;
                    Call_factory f (Policy_getPolicy p n)] |}) /\
  lookupFormatter_string n None (run h) =
    {| returned := inr (f None); this := run h;
       calls := [Call_factory f None] |} /\
  (forall p, Policy_exists p n = false ->
     lookupFormatter_string n (Some p) (run h) =
       {| returned := inr (f None); this := run h;
          calls := [Call_exists p n; Call_factory f None] |}).
Proof.
  intro H. rewrite <- find_byName_run in H. repeat split.
  - intros p Hp. rewrite (lookupFormatter_string_present _ _ _ _ H).
    unfold formatterPolicy_of, policy_calls. now rewrite Hp.
  - now rewrite (lookupFormatter_string_present _ _ _ _ H).
  - intros p Hp. rewrite (lookupFormatter_string_present _ _ _ _ H).
    unfold formatterPolicy_of, policy_calls. now rewrite Hp.
Qed.

(** C5. When two factories are registered one after the other under a name
    not registered before, every later lookup of the name returns what the
    first of the two builds, and calls no other factory. *)
Theorem C5_first_match_wins h0 n ty1 f1 h1 ty2 f2 h2 policy :
  ~ In n (registered_names h0) ->
  lookupFormatter_string n policy
    (run (h0 ++ Op_register n ty1 f1 :: h1 ++ Op_register n ty2 f2 :: h2)) =
    {| returned := inr (f1 (formatterPolicy_of policy n));
       this := run (h0 ++ Op_register n ty1 f1 :: h1 ++
                    Op_register n ty2 f2 :: h2);
       calls := policy_calls policy n ++
                [Call_factory f1 (formatterPolicy_of policy n)] |}.
Proof.
  intro H. apply lookupFormatter_string_present.
  rewrite find_byName_run, first_factory_app.
  apply first_factory_None in H. rewrite H. simpl. now rewrite String.eqb_refl.
Qed.

(** C6. In every registry reached from the empty one by registrations and
    lookups, each name held in [_nameForType] is a key of [_byName], so that
    [find] of it succeeds. *)
Theorem C6_names_have_factories r t n :
  reachable r ->
  In (t, n) (_nameForType r) ->
  In n (Assoc.keys (_byName r)) /\ exists f, Assoc.find n (_byName r) = Some f.
Proof.
  intros [h ->] Hin.
  enough (K : In n (Assoc.keys (_byName (run h)))).
  { split; [assumption|]. now apply keys_find. }
  revert t n Hin. unfold run.
  enough (G : forall r0,
             (forall t n, In (t, n) (_nameForType r0) ->
                          In n (Assoc.keys (_byName r0))) ->
             forall t n, In (t, n) (_nameForType (run_from r0 h)) ->
                         In n (Assoc.keys (_byName (run_from r0 h)))).
  { apply G. intros t n []. }
  induction h as [|o h IH]; intros r0 Hinv; [exact Hinv|].
  simpl. apply IH. clear IH.
  destruct o as [n' ty f|ty policy|n' policy]; cbn [exec].
  - rewrite registerFormatter_eq. cbn [this _byName _nameForType].
    intros t n Hin. apply In_insert in Hin as [[= -> ->]|Hin].
    + apply key_insert.
    + eapply keys_insert_incl, Hinv, Hin.
  - now rewrite lookupFormatter_type_info_this.
  - now rewrite lookupFormatter_string_this.
Qed.

(** C7. The exception of a lookup by an unregistered type identity and the
    exception of a lookup by an unregistered name are different values. Both
    are of the class [InvalidParameter]; what they say differs, and the
    caller can test either on its own: the first starts with the text of the
    lookup by type identity, the second does not. *)
Theorem C7_errors_distinguishable h1 h2 ty n policy1 policy2 :
  ~ In (name ty) (registered_types h1) ->
  ~ In n (registered_names h2) ->
  exists e1 e2,
    returned (lookupFormatter_type_info ty policy1 (run h1)) = inl e1 /\
    returned (lookupFormatter_string n policy2 (run h2)) = inl e2 /\
    e1 <> e2 /\
    (what e1 =? what e2) = false /\
    prefix "No Formatter registered for Persistable type: " (what e1) = true /\
    prefix "No Formatter registered for Persistable type: " (what e2) = false.
Proof.
  intros Ht Hn. exists (UnknownType ty), (UnknownFormatter n).
  rewrite (lookupFormatter_type_info_unregistered _ _ _ Ht).
  rewrite (lookupFormatter_string_unregistered _ _ _ Hn).
  assert (D : (what (UnknownType ty) =? what (UnknownFormatter n)) = false)
    by reflexivity.
  split; [reflexivity|]. split; [reflexivity|]. split; [|split; [exact D|]].
  - intro E. rewrite E, String.eqb_refl in D. discriminate.
  - split; [|reflexivity]. cbn. now destruct (name ty).
Qed.

(** C8. A lookup, by type identity or by name, returning or throwing, leaves
    the registry as it found it. A registration keeps every element of both
    containers, in their order, and adds at most its own element to each;
    in a registry whose containers are in key order, [find] of a key that
    had an element yields the same element afterwards. *)
Theorem C8_frame r :
  (forall ty policy, this (lookupFormatter_type_info ty policy r) = r) /\
  (forall n policy, this (lookupFormatter_string n policy r) = r) /\
  (forall n ty f,
     let r' := this (registerFormatter n ty f r) in
     (exists front back,
         _byName r = front ++ back /\
         (_byName r' = front ++ back \/
          _byName r' = front ++ (n, f) :: back)) /\
     (exists front back,
         _nameForType r = front ++ back /\
         (_nameForType r' = front ++ back \/
          _nameForType r' = front ++ (name ty, n) :: back)) /\
     (well_formed r ->
      (forall k v, Assoc.find k (_byName r) = Some v ->
                   Assoc.find k (_byName r') = Some v) /\
      (forall k v, Assoc.find k (_nameForType r) = Some v ->
                   Assoc.find k (_nameForType r') = Some v))).
Proof.
  split; [|split].
  - intros. apply lookupFormatter_type_info_this.
  - intros. apply lookupFormatter_string_this.
  - intros n ty f r'. unfold r'. rewrite registerFormatter_eq.
    cbn [this _byName _nameForType]. split; [|split].
    + apply insert_split.
    + apply insert_split.
    + intros [Hb Hn]. split; intros k v Hk;
        rewrite find_insert by assumption; now rewrite Hk.
Qed.

(** C9. No registry exists when the process starts; the first call of
    [getInstance] constructs an empty one. From a call of [getInstance] on,
    every call returns the same address, whatever is done in between, and the
    store never holds more than that registry. A registration made through
    the reference one call returned is seen by a lookup made through the
    reference another call returned. *)
Theorem C9_singleton :
  (registry Process_start = None /\ store Process_start = [] /\
   getInstance Process_start =
     (0, {| registry := Some 0; store := [FormatterRegistry_new] |})) /\
  (forall p ph,
     fst (getInstance (prun_from (snd (getInstance p)) ph)) =
       fst (getInstance p)) /\
  (forall ph, one_instance (prun_from Process_start ph)) /\
  (forall ph n ty f policy,
     let a1 := fst (getInstance (prun_from Process_start ph)) in
     let p1 := snd (getInstance (prun_from Process_start ph)) in
     let p2 := snd (call_at a1 (registerFormatter n ty f) p1) in
     let a2 := fst (getInstance p2) in
     let p3 := snd (getInstance p2) in
     a2 = a1 /\
     exists r f1,
       nth_error (store p1) a1 = Some r /\
       fst (call_at a2 (lookupFormatter_string n policy) p3) =
         Some (lookupFormatter_string n policy
                 (this (registerFormatter n ty f r))) /\
       returned (lookupFormatter_string n policy
                   (this (registerFormatter n ty f r))) =
         inr (f1 (formatterPolicy_of policy n))).
Proof.
  split; [|split; [|split]].
  - repeat split.
  - intros p ph.
    pose proof (getInstance_registry p) as H.
    apply (prun_from_registry ph) in H.
    now rewrite (getInstance_initialised _ _ H).
  - intro ph. apply one_instance_prun_from, one_instance_start.
  - intros ph n ty f policy a1 p1 p2 a2 p3.
    pose proof (one_instance_prun_from ph _ one_instance_start) as Hone.
    apply one_instance_getInstance in Hone. fold p1 in Hone.
    pose proof (getInstance_registry (prun_from Process_start ph)) as Hreg.
    fold p1 a1 in Hreg.
    destruct Hone as [[Hr _]|(r & Hr & Hs)]; [congruence|].
    assert (Ha : a1 = 0) by congruence.
    assert (Hp2 : p2 = {| registry := Some 0;
                          store := [this (registerFormatter n ty f r)] |}).
    { unfold p2, call_at. rewrite Ha, Hs, Hr. reflexivity. }
    assert (Hg : getInstance p2 = (0, p2)).
    { apply getInstance_initialised. now rewrite Hp2. }
    unfold a2, p3. rewrite Hg. cbn [fst snd]. split; [congruence|].
    destruct (keys_find n (_byName (this (registerFormatter n ty f r))))
      as (f1 & Hf1).
    { rewrite registerFormatter_eq. cbn [this _byName]. apply key_insert. }
    exists r, f1. split; [now rewrite Ha, Hs|]. split.
    + rewrite Hp2. reflexivity.
    + now rewrite (lookupFormatter_string_present _ _ _ _ Hf1).
Qed.

(** C10. A lookup that throws has made no call: no factory was called, and
    neither [exists] nor [getPolicy] on the caller's policy. *)
Theorem C10_failure_before_calls r :
  (forall ty policy e,
     returned (lookupFormatter_type_info ty policy r) = inl e ->
     calls (lookupFormatter_type_info ty policy r) = []) /\
  (forall n policy e,
     returned (lookupFormatter_string n policy r) = inl e ->
     calls (lookupFormatter_string n policy r) = []).
Proof.
  assert (S : forall n policy e,
             returned (lookupFormatter_string n policy r) = inl e ->
             calls (lookupFormatter_string n policy r) = []).
  { intros n policy e. destruct (Assoc.find n (_byName r)) as [f|] eqn:E.
    - rewrite (lookupFormatter_string_present _ _ _ _ E). discriminate.
    - now rewrite (lookupFormatter_string_absent _ _ _ E). }
  split; [|exact S].
  intros ty policy e.
  destruct (Assoc.find (name ty) (_nameForType r)) as [n|] eqn:E.
  - rewrite (lookupFormatter_type_info_present _ _ _ _ E). apply S.
  - now rewrite (lookupFormatter_type_info_absent _ _ _ E).
Qed.

End Protocol.

(** ** The protocol on concrete registries *)

(** C1 as first stated fails: of two factories registered under one name,
    the lookups by that name and by the type identity of the second
    registration return what the first factory builds, not what the second
    does; this on [std::map] and on [std::multimap] alike. *)
Lemma C1_second_registration_not_returned :
  Forall
    (fun kinds : ContainerKind * ContainerKind =>
       let r := run (@Dup_history (fst kinds) (snd kinds)) in
       returned (lookupFormatter_string "Dup" None r) = inr "first" /\
       returned (lookupFormatter_string "Dup" None r) <>
         inr (labelled "second" None) /\
       returned (lookupFormatter_type_info Bar_type None r) <>
         inr (labelled "second" None))
    [(UniqueKeys, UniqueKeys); (UniqueKeys, EquivalentKeys);
     (EquivalentKeys, UniqueKeys); (EquivalentKeys, EquivalentKeys)].
Proof.
  repeat constructor; vm_compute; discriminate.
Qed.

(** A first registration of [Foo] is found by name and by type identity. *)
Lemma C1_round_trip_witness :
  returned (lookupFormatter_string "Foo" None
              (run (@Foo_history EquivalentKeys UniqueKeys))) =
    inr "FooFormatter" /\
  returned (lookupFormatter_type_info Foo_type None
              (run (@Foo_history EquivalentKeys UniqueKeys))) =
    inr "FooFormatter".
Proof.
  destruct (@C1_round_trip (Trees EquivalentKeys UniqueKeys)
              [] "Foo" Foo_type (labelled "FooFormatter") [] None)
    as (_ & _ & Hn & Ht).
  split; [apply Hn | apply Ht]; simpl; tauto.
Defined.

(** [Bar] was not registered: its type identity is unknown. *)
Lemma C2_unknown_type_witness :
  returned (lookupFormatter_type_info Bar_type None
              (run (@Foo_history UniqueKeys UniqueKeys))) =
    inl (InvalidParameter "No Formatter registered for Persistable type: 3Bar").
Proof.
  rewrite (@C2_unknown_type (Trees UniqueKeys UniqueKeys)
             Foo_history Bar_type None).
  - reflexivity.
  - simpl. intros [H|[]]. discriminate H.
Defined.

(** [Bar] was not registered: its name is unknown. *)
Lemma C3_unknown_name_witness :
  returned (lookupFormatter_string (C := Trees UniqueKeys UniqueKeys)
              "Bar" (Some Foo_policy) (run Foo_history)) =
    inl (InvalidParameter "No Formatter registered for Persistable name: Bar").
Proof.
  rewrite (@C3_unknown_name (Trees UniqueKeys UniqueKeys)
             Foo_history "Bar" (Some Foo_policy)).
  - reflexivity.
  - simpl. intros [H|[]]. discriminate H.
Defined.

(** The factory of [Foo] is given the sub-policy [Foo] of the caller's policy,
    and the null policy when there is none. *)
Lemma C4_configuration_pass_through_witness :
  returned (lookupFormatter_string (C := Trees UniqueKeys EquivalentKeys)
              "Foo" (Some Foo_policy) (run Foo_history)) =
    inr "FooFormatter:precision" /\
  returned (lookupFormatter_string "Foo" None
              (run (@Foo_history UniqueKeys EquivalentKeys))) =
    inr "FooFormatter" /\
  returned (lookupFormatter_string (C := Trees UniqueKeys EquivalentKeys)
              "Foo" (Some PolicyEmpty) (run Foo_history)) =
    inr "FooFormatter".
Proof.
  destruct (@C4_configuration_pass_through (Trees UniqueKeys EquivalentKeys)
              Foo_history "Foo" (labelled "FooFormatter") eq_refl)
    as (Hsub & Hnull & Hnone).
  split; [|split].
  - exact (f_equal returned (Hsub Foo_policy eq_refl)).
  - exact (f_equal returned Hnull).
  - exact (f_equal returned (Hnone PolicyEmpty eq_refl)).
Defined.

(** Of the two factories registered under [Dup], the first builds the
    formatter. *)
Lemma C5_first_match_wins_witness :
  returned (lookupFormatter_string "Dup" None
              (run (@Dup_history EquivalentKeys EquivalentKeys))) =
    inr "first".
Proof.
  refine (f_equal returned
            (@C5_first_match_wins (Trees EquivalentKeys EquivalentKeys)
               [] "Dup" Foo_type (labelled "first") []
               Bar_type (labelled "second") [] None _)).
  simpl. tauto.
Defined.

(** The name recorded for the type identity of [Bar] has a factory. *)
Lemma C6_names_have_factories_witness :
  In "Dup" (Assoc.keys (_byName (run (@Dup_history UniqueKeys EquivalentKeys)))) /\
  exists f,
    Assoc.find "Dup" (_byName (run (@Dup_history UniqueKeys EquivalentKeys))) =
      Some f.
Proof.
  apply (@C6_names_have_factories (Trees UniqueKeys EquivalentKeys)
           (run Dup_history) "3Bar" "Dup").
  - exists Dup_history. reflexivity.
  - vm_compute. tauto.
Defined.

(** On the empty registry, the lookup of a type identity and the lookup of a
    name with the same text throw different exceptions. *)
Lemma C7_errors_distinguishable_witness :
  exists e1 e2,
    returned (lookupFormatter_type_info Foo_type None
                (@run (Trees UniqueKeys UniqueKeys) [])) = inl e1 /\
    returned (lookupFormatter_string "3Foo" None
                (@run (Trees UniqueKeys UniqueKeys) [])) = inl e2 /\
    e1 <> e2 /\
    (what e1 =? what e2) = false /\
    prefix "No Formatter registered for Persistable type: " (what e1) = true /\
    prefix "No Formatter registered for Persistable type: " (what e2) = false.
Proof.
  apply (@C7_errors_distinguishable (Trees UniqueKeys UniqueKeys)
           [] [] Foo_type "3Foo" None None); simpl; tauto.
Defined.

(** A third registration under [Dup] leaves the first factory in place. *)
Lemma C8_frame_witness :
  Assoc.find "Dup"
    (_byName (this (registerFormatter "Dup" Bar_type (labelled "third")
                      (run (@Dup_history EquivalentKeys EquivalentKeys))))) =
    Some (labelled "first").
Proof.
  destruct (@C8_frame (Trees EquivalentKeys EquivalentKeys) (run Dup_history))
    as (_ & _ & Hreg).
  destruct (Hreg "Dup" Bar_type (labelled "third")) as (_ & _ & Hfind).
  apply Hfind.
  - unfold well_formed. simpl. repeat constructor.
  - reflexivity.
Defined.

(** The failing lookups of [Bar] do not touch the policy they were given. *)
Lemma C10_failure_before_calls_witness :
  calls (lookupFormatter_type_info (C := Trees UniqueKeys UniqueKeys)
           Bar_type (Some Foo_policy) (run Foo_history)) = [] /\
  calls (lookupFormatter_string (C := Trees UniqueKeys UniqueKeys)
           "Bar" (Some Foo_policy) (run Foo_history)) = [].
Proof.
  destruct (@C10_failure_before_calls (Trees UniqueKeys UniqueKeys)
              (run Foo_history)) as (Ht & Hn).
  split.
  - apply (Ht Bar_type (Some Foo_policy) (UnknownType Bar_type)). reflexivity.
  - apply (Hn "Bar" (Some Foo_policy) (UnknownFormatter "Bar")). reflexivity.
Defined.

(** ** Further facts on histories *)

Section HistoryFacts.

Context {C : Collaborators}.
Implicit Types (r : FormatterRegistry) (h : list Op) (n : string)
  (ty : type_info) (f : FactoryPtr) (policy : Policy_Ptr).

(** Lookups see the containers through [find] only. *)
Lemma same_lookups_find r r' :
  (forall k, Assoc.find k (_byName r) = Assoc.find k (_byName r')) ->
  (forall t, Assoc.find t (_nameForType r) = Assoc.find t (_nameForType r')) ->
  same_lookups r r'.
Proof.
  intros Hb Hn.
  assert (S : forall n policy,
             returned (lookupFormatter_string n policy r) =
               returned (lookupFormatter_string n policy r') /\
             calls (lookupFormatter_string n policy r) =
               calls (lookupFormatter_string n policy r')).
  { intros n policy. destruct (Assoc.find n (_byName r)) as [f|] eqn:E.
    - rewrite (lookupFormatter_string_present n policy r f E).
      rewrite (lookupFormatter_string_present n policy r' f)
        by now rewrite <- Hb.
      now split.
    - rewrite (lookupFormatter_string_absent n policy r E).
      rewrite (lookupFormatter_string_absent n policy r')
        by now rewrite <- Hb.
      now split. }
  split; [exact S|].
  intros ty policy.
  destruct (Assoc.find (name ty) (_nameForType r)) as [n|] eqn:E.
  - rewrite (lookupFormatter_type_info_present ty policy r n E).
    rewrite (lookupFormatter_type_info_present ty policy r' n)
      by now rewrite <- Hn.
    apply S.
  - rewrite (lookupFormatter_type_info_absent ty policy r E).
    rewrite (lookupFormatter_type_info_absent ty policy r')
      by now rewrite <- Hn.
    now split.
Qed.

Lemma same_lookups_first h h' :
  (forall k, first_factory h k = first_factory h' k) ->
  (forall t, first_name h t = first_name h' t) ->
  same_lookups (run h) (run h').
Proof.
  intros Hf Hn. apply same_lookups_find; intro k.
  - now rewrite !find_byName_run.
  - now rewrite !find_nameForType_run.
Qed.

Lemma In_registered n ty f h :
  In (Op_register n ty f) h ->
  In n (registered_names h) /\ In (name ty) (registered_types h).
Proof.
  induction h as [|o h IH]; simpl; [tauto|].
  intros [->|H].
  - simpl. auto.
  - destruct (IH H). destruct o; simpl; auto.
Qed.

Lemma first_factory_In h k f :
  first_factory h k = Some f -> exists ty, In (Op_register k ty f) h.
Proof.
  induction h as [|[n' ty' f'|ty' policy|n' policy] h IH]; simpl;
    try discriminate.
  - destruct (String.eqb_spec n' k) as [->|_].
    + intros [= ->]. eauto.
    + intro H. destruct (IH H) as (ty & Hin). eauto.
  - intro H. destruct (IH H) as (ty & Hin). eauto.
  - intro H. destruct (IH H) as (ty & Hin). eauto.
Qed.

Lemma In_first_factory h k ty f :
  NoDup (registered_names h) ->
  In (Op_register k ty f) h -> first_factory h k = Some f.
Proof.
  induction h as [|[n' ty' f'|ty' policy|n' policy] h IH]; simpl;
    try tauto.
  - intros Hnd [[= -> -> ->]|Hin].
    + now rewrite String.eqb_refl.
    + inversion_clear Hnd as [|? ? Hfresh Hrest].
      destruct (String.eqb_spec n' k) as [->|_]; [|auto].
      exfalso. apply Hfresh. eapply In_registered, Hin.
  - intros Hnd [[=]|Hin]. auto.
  - intros Hnd [[=]|Hin]. auto.
Qed.

Lemma first_name_In h t n :
  first_name h t = Some n ->
  exists ty f, name ty = t /\ In (Op_register n ty f) h.
Proof.
  induction h as [|[n' ty' f'|ty' policy|n' policy] h IH]; simpl;
    try discriminate.
  - destruct (String.eqb_spec (name ty') t) as [E|_].
    + intros [= ->]. eauto.
    + intro H. destruct (IH H) as (ty & f & E & Hin). eauto 6.
  - intro H. destruct (IH H) as (ty & f & E & Hin). eauto 6.
  - intro H. destruct (IH H) as (ty & f & E & Hin). eauto 6.
Qed.

Lemma In_first_name h n ty f :
  NoDup (registered_types h) ->
  In (Op_register n ty f) h -> first_name h (name ty) = Some n.
Proof.
  induction h as [|[n' ty' f'|ty' policy|n' policy] h IH]; simpl;
    try tauto.
  - intros Hnd [[= -> -> ->]|Hin].
    + now rewrite String.eqb_refl.
    + inversion_clear Hnd as [|? ? Hfresh Hrest].
      destruct (String.eqb_spec (name ty') (name ty)) as [E|_]; [|auto].
      exfalso. apply Hfresh. rewrite E. eapply In_registered, Hin.
  - intros Hnd [[=]|Hin]. auto.
  - intros Hnd [[=]|Hin]. auto.
Qed.

Lemma Permutation_registered_names h h' :
  Permutation h h' -> Permutation (registered_names h) (registered_names h').
Proof.
  induction 1 as [|o h h' _ IH|o1 o2 h|h1 h2 h3 _ IH1 _ IH2]; simpl.
  - constructor.
  - destruct o; auto.
  - destruct o1, o2; auto using perm_swap.
  - eapply perm_trans; eassumption.
Qed.

Lemma Permutation_registered_types h h' :
  Permutation h h' -> Permutation (registered_types h) (registered_types h').
Proof.
  induction 1 as [|o h h' _ IH|o1 o2 h|h1 h2 h3 _ IH1 _ IH2]; simpl.
  - constructor.
  - destruct o; auto.
  - destruct o1, o2; auto using perm_swap.
  - eapply perm_trans; eassumption.
Qed.




End HistoryFacts.

(** ** Further facts on the process *)

Section StoreFacts.

Context {C : Collaborators}.
Implicit Types (p : Process) (a : Address) (r : FormatterRegistry)
  (s : list FormatterRegistry).

Lemma store_set_length a r s : length (store_set a r s) = length s.
Proof.
  revert a. induction s as [|x s IH]; intros [|a]; simpl; auto.
Qed.

Lemma nth_error_store_set_same a r s x :
  nth_error s a = Some x -> nth_error (store_set a r s) a = Some r.
Proof.
  revert a. induction s as [|y s IH]; intros [|a]; simpl; try discriminate; auto.
Qed.

Lemma nth_error_store_set_other a a' r s :
  a' <> a -> nth_error (store_set a' r s) a = nth_error s a.
Proof.
  revert a a'. induction s as [|y s IH]; intros [|a] [|a'] N; simpl; auto.
  congruence.
Qed.

Lemma call_at_store {A} a' (m : Method A) p a r :
  nth_error (store p) a = Some r ->
  nth_error (store (snd (call_at a' m p))) a =
    Some (if Nat.eqb a' a then this (m r) else r) /\
  length (store (snd (call_at a' m p))) = length (store p).
Proof.
  intro H. unfold call_at.
  destruct (Nat.eqb_spec a' a) as [->|N].
  - rewrite H. cbn [snd store]. split.
    + eapply nth_error_store_set_same, H.
    + apply store_set_length.
  - destruct (nth_error (store p) a') as [r0|]; cbn [snd store].
    + split; [|apply store_set_length].
      now rewrite nth_error_store_set_other.
    + auto.
Qed.

Lemma pexec_call_store a' o p a r :
  nth_error (store p) a = Some r ->
  nth_error (store (pexec p (POp_call a' o))) a =
    Some (if Nat.eqb a' a then exec r o else r) /\
  length (store (pexec p (POp_call a' o))) = length (store p).
Proof.
  intro H. destruct o as [n ty f|ty policy|n policy]; cbn [pexec exec];
    now apply call_at_store.
Qed.

End StoreFacts.

(** ** Further properties of the registry *)

Section Further.

Context {C : Collaborators}.
Implicit Types (r : FormatterRegistry) (h : list Op) (n : string)
  (ty : type_info) (f : FactoryPtr) (policy : Policy_Ptr).

(** X1. A type identity stays bound to the name of its first registration:
    when it is registered again under another name, the lookup by the type
    identity still does what the lookup by the first name does, and builds
    with the first factory when that name was new. *)
Theorem X1_type_first_registration_wins
    h0 n1 ty f1 h1 n2 f2 h2 policy :
  ~ In (name ty) (registered_types h0) ->
  let h := h0 ++ Op_register n1 ty f1 :: h1 ++ Op_register n2 ty f2 :: h2 in
  lookupFormatter_type_info ty policy (run h) =
    lookupFormatter_string n1 policy (run h) /\
  (~ In n1 (registered_names h0) ->
   returned (lookupFormatter_type_info ty policy (run h)) =
     inr (f1 (formatterPolicy_of policy n1))).
Proof.
  intros Hfresh h.
  assert (Hn : first_name h (name ty) = Some n1).
  { unfold h. rewrite first_name_app.
    apply first_name_None in Hfresh. rewrite Hfresh. simpl.
    now rewrite String.eqb_refl. }
  assert (E : lookupFormatter_type_info ty policy (run h) =
              lookupFormatter_string n1 policy (run h)).
  { apply lookupFormatter_type_info_present. now rewrite find_nameForType_run. }
  split; [exact E|].
  intro Hnew. rewrite E.
  rewrite (lookupFormatter_string_present n1 policy (run h) f1); [reflexivity|].
  rewrite find_byName_run. unfold h. rewrite first_factory_app.
  apply first_factory_None in Hnew. rewrite Hnew. simpl.
  now rewrite String.eqb_refl.
Qed.

(** X2. A type identity registered under a name that has a factory already
    is served by that factory: the factory given with the later registration
    is never called by the lookup of the new type identity. *)
Theorem X2_type_under_registered_name
    h0 n ty1 f1 h1 ty2 f2 h2 policy :
  ~ In n (registered_names h0) ->
  ~ In (name ty2) (registered_types (h0 ++ Op_register n ty1 f1 :: h1)) ->
  let h := h0 ++ Op_register n ty1 f1 :: h1 ++ Op_register n ty2 f2 :: h2 in
  lookupFormatter_type_info ty2 policy (run h) =
    {| returned := inr (f1 (formatterPolicy_of policy n));
       this := run h;
       calls := policy_calls policy n ++
                [Call_factory f1 (formatterPolicy_of policy n)] |}.
Proof.
  intros Hnew Hfresh h.
  assert (Hn : first_name h (name ty2) = Some n).
  { unfold h.
    change (h0 ++ Op_register n ty1 f1 :: h1 ++ Op_register n ty2 f2 :: h2)
      with (h0 ++ (Op_register n ty1 f1 :: h1) ++ Op_register n ty2 f2 :: h2).
    rewrite app_assoc, first_name_app.
    apply first_name_None in Hfresh. rewrite Hfresh. simpl.
    now rewrite String.eqb_refl. }
  rewrite (lookupFormatter_type_info_present ty2 policy (run h) n)
    by now rewrite find_nameForType_run.
  apply lookupFormatter_string_present.
  rewrite find_byName_run. unfold h. rewrite first_factory_app.
  apply first_factory_None in Hnew. rewrite Hnew. simpl.
  now rewrite String.eqb_refl.
Qed.


(** X4. When every name and every type identity is registered once, the
    order of the registrations does not matter: after the same registrations
    in any other order, every lookup returns or throws the same and makes
    the same calls. *)
Theorem X4_registration_order_irrelevant h h' :
  Permutation h h' ->
  NoDup (registered_names h) ->
  NoDup (registered_types h) ->
  same_lookups (run h) (run h').
Proof.
  intros P Hn Ht.
  pose proof (Permutation_registered_names _ _ P) as Pn.
  pose proof (Permutation_registered_types _ _ P) as Pt.
  pose proof (Permutation_NoDup Pn Hn) as Hn'.
  pose proof (Permutation_NoDup Pt Ht) as Ht'.
  apply same_lookups_first.
  - intro k. destruct (first_factory h k) as [f|] eqn:E.
    + destruct (first_factory_In _ _ _ E) as (ty & Hin).
      symmetry. eapply In_first_factory; [exact Hn'|].
      eapply Permutation_in; eassumption.
    + symmetry. apply first_factory_None. apply first_factory_None in E.
      intro Hin. apply E. eapply Permutation_in; [|exact Hin].
      now apply Permutation_sym.
  - intro t. destruct (first_name h t) as [n|] eqn:E.
    + destruct (first_name_In _ _ _ E) as (ty & f & <- & Hin).
      symmetry. eapply In_first_name; [exact Ht'|].
      eapply Permutation_in; eassumption.
    + symmetry. apply first_name_None. apply first_name_None in E.
      intro Hin. apply E. eapply Permutation_in; [|exact Hin].
      now apply Permutation_sym.
Qed.

(** X5. Registering again a name and a type identity that are both
    registered already changes no lookup, whatever factory is given and
    whatever is done afterwards. *)
Theorem X5_registering_again_changes_no_lookup h n ty f h2 :
  In n (registered_names h) ->
  In (name ty) (registered_types h) ->
  same_lookups (run (h ++ h2)) (run (h ++ Op_register n ty f :: h2)).
Proof.
  intros Hn Ht. apply same_lookups_first.
  - intro k. rewrite !first_factory_app.
    destruct (first_factory h k) eqn:E; [reflexivity|]. simpl.
    destruct (String.eqb_spec n k) as [->|_]; [|reflexivity].
    apply first_factory_None in E. contradiction.
  - intro t. rewrite !first_name_app.
    destruct (first_name h t) eqn:E; [reflexivity|]. simpl.
    destruct (String.eqb_spec (name ty) t) as [<-|_]; [|reflexivity].
    apply first_name_None in E. contradiction.
Qed.

(** X6. A registration changes the lookups of its own name and of its own
    type identity only: the lookup of any other name, and of any other type
    identity, returns or throws the same and makes the same calls as
    before. *)
Theorem X6_registration_leaves_other_lookups h n ty f :
  let r := run h in
  let r' := run (h ++ [Op_register n ty f]) in
  (forall k policy,
     k <> n ->
     returned (lookupFormatter_string k policy r') =
       returned (lookupFormatter_string k policy r) /\
     calls (lookupFormatter_string k policy r') =
       calls (lookupFormatter_string k policy r)) /\
  (forall t policy,
     name t <> name ty ->
     returned (lookupFormatter_type_info t policy r') =
       returned (lookupFormatter_type_info t policy r) /\
     calls (lookupFormatter_type_info t policy r') =
       calls (lookupFormatter_type_info t policy r)).
Proof.
  intros r r'. split.
  - intros k policy N.
    assert (E : Assoc.find k (_byName r') = Assoc.find k (_byName r)).
    { unfold r, r'. rewrite !find_byName_run, first_factory_app. simpl.
      destruct (String.eqb_spec n k) as [->|_]; [congruence|].
      now destruct (first_factory h k). }
    destruct (Assoc.find k (_byName r)) as [f1|] eqn:F.
    + rewrite (lookupFormatter_string_present k policy r' f1 E).
      rewrite (lookupFormatter_string_present k policy r f1 F). now split.
    + rewrite (lookupFormatter_string_absent k policy r' E).
      rewrite (lookupFormatter_string_absent k policy r F). now split.
  - intros t policy N.
    assert (E : first_name (h ++ [Op_register n ty f]) (name t) =
                first_name h (name t)).
    { rewrite first_name_app. simpl.
      destruct (String.eqb_spec (name ty) (name t)) as [E|_]; [congruence|].
      now destruct (first_name h (name t)). }
    destruct (first_name h (name t)) as [m|] eqn:F.
    + destruct (first_name_first_factory _ _ _ F) as (f1 & Hf1).
      rewrite (lookupFormatter_type_info_present t policy r' m)
        by (unfold r'; now rewrite find_nameForType_run).
      rewrite (lookupFormatter_type_info_present t policy r m)
        by (unfold r; now rewrite find_nameForType_run).
      rewrite (lookupFormatter_string_present m policy r' f1)
        by (unfold r'; now rewrite find_byName_run, first_factory_app, Hf1).
      rewrite (lookupFormatter_string_present m policy r f1)
        by (unfold r; now rewrite find_byName_run).
      now split.
    + rewrite (lookupFormatter_type_info_absent t policy r')
        by (unfold r'; now rewrite find_nameForType_run).
      rewrite (lookupFormatter_type_info_absent t policy r)
        by (unfold r; now rewrite find_nameForType_run).
      now split.
Qed.


(** X8. Once the static of [getInstance] points to a registry, that
    registry is the one every later operation works on: after any sequence
    of further calls of [getInstance] and of member functions through
    references, the static is unchanged, no registry was added to the store,
    and the registry holds what the operations made through its reference,
    in their order, made of it. *)
Theorem X8_singleton_accumulates (p : Process) (a : Address) r
    (ph : list ProcessOp) :
  registry p = Some a ->
  nth_error (store p) a = Some r ->
  registry (prun_from p ph) = Some a /\
  nth_error (store (prun_from p ph)) a = Some (run_from r (ops_at a ph)) /\
  length (store (prun_from p ph)) = length (store p).
Proof.
  revert p r. induction ph as [|o ph IH]; intros p r Hreg Hr.
  - simpl. auto.
  - simpl. destruct o as [|a' o].
    + cbn [pexec]. rewrite (getInstance_initialised _ _ Hreg). cbn [snd].
      now apply IH.
    + destruct (pexec_call_store a' o p a r Hr) as (Hs & Hl).
      pose proof (pexec_registry p (POp_call a' o) a Hreg) as Hreg'.
      destruct (IH _ _ Hreg' Hs) as (H1 & H2 & H3).
      split; [exact H1|]. split; [|congruence].
      rewrite H2. now destruct (Nat.eqb a' a).
Qed.

End Further.

(** ** The further properties on concrete registries *)

(** [Foo]'s type identity, registered under [Foo] and then under [Bar],
    is still looked up as [Foo]. *)
Lemma X1_type_first_registration_wins_witness :
  returned (lookupFormatter_type_info Foo_type None
              (run (@Rebound_history UniqueKeys EquivalentKeys))) =
    inr "first".
Proof.
  destruct (@X1_type_first_registration_wins (Trees UniqueKeys EquivalentKeys)
              [] "Foo" Foo_type (labelled "first") []
              "Bar" (labelled "second") [] None) as (_ & H).
  - simpl. tauto.
  - apply H. simpl. tauto.
Defined.

(** The type identity of [Bar], registered under [Dup] after [Foo]'s, gets
    the formatter of the first factory. *)
Lemma X2_type_under_registered_name_witness :
  returned (lookupFormatter_type_info Bar_type None
              (run (@Dup_history EquivalentKeys EquivalentKeys))) =
    inr "first".
Proof.
  refine (f_equal returned
            (@X2_type_under_registered_name (Trees EquivalentKeys EquivalentKeys)
               [] "Dup" Foo_type (labelled "first") []
               Bar_type (labelled "second") [] None _ _)).
  - simpl. tauto.
  - simpl. intros [H|[]]. discriminate H.
Defined.


(** Three modules initialised in two orders leave registries that no lookup
    tells apart. *)
Lemma X4_registration_order_irrelevant_witness :
  same_lookups (run (@Modules_history EquivalentKeys UniqueKeys))
               (run (@Modules_history' EquivalentKeys UniqueKeys)).
Proof.
  apply (@X4_registration_order_irrelevant (Trees EquivalentKeys UniqueKeys)).
  - unfold Modules_history, Modules_history'.
    eapply perm_trans; [apply perm_skip, perm_swap | apply perm_swap].
  - simpl. repeat constructor; simpl; intuition discriminate.
  - simpl. repeat constructor; simpl; intuition discriminate.
Defined.

(** A second registration of [Foo] with another factory is not seen. *)
Lemma X5_registering_again_changes_no_lookup_witness :
  same_lookups
    (run (@Foo_history EquivalentKeys EquivalentKeys))
    (run (Foo_history ++ [Op_register "Foo" Foo_type (labelled "other")])).
Proof.
  apply (@X5_registering_again_changes_no_lookup
           (Trees EquivalentKeys EquivalentKeys)
           Foo_history "Foo" Foo_type (labelled "other") []).
  - simpl. tauto.
  - simpl. tauto.
Defined.

(** Registering [Bar] leaves the lookups of [Foo] as they were. *)
Lemma X6_registration_leaves_other_lookups_witness :
  returned (lookupFormatter_string (C := Trees UniqueKeys UniqueKeys)
              "Foo" (Some Foo_policy)
              (run (Foo_history ++
                    [Op_register "Bar" Bar_type (labelled "BarFormatter")]))) =
    inr "FooFormatter:precision" /\
  returned (lookupFormatter_type_info (C := Trees UniqueKeys UniqueKeys)
              Foo_type (Some Foo_policy)
              (run (Foo_history ++
                    [Op_register "Bar" Bar_type (labelled "BarFormatter")]))) =
    inr "FooFormatter:precision".
Proof.
  destruct (@X6_registration_leaves_other_lookups (Trees UniqueKeys UniqueKeys)
              Foo_history "Bar" Bar_type (labelled "BarFormatter"))
    as (Hn & Ht).
  split.
  - destruct (Hn "Foo" (Some Foo_policy)) as (H & _); [discriminate|].
    exact H.
  - destruct (Ht Foo_type (Some Foo_policy)) as (H & _); [discriminate|].
    exact H.
Defined.


(** Two holders register through the reference of the registry, with a call
    of [getInstance] in between: the registry holds both registrations. *)
Lemma X8_singleton_accumulates_witness :
  nth_error
    (store (prun_from (snd (getInstance Process_start))
              (@Holders_history UniqueKeys UniqueKeys))) 0 =
    Some (run Dup_history).
Proof.
  destruct (@X8_singleton_accumulates (Trees UniqueKeys UniqueKeys)
              (snd (getInstance Process_start)) 0 FormatterRegistry_new
              Holders_history eq_refl eq_refl) as (_ & H & _).
  exact H.
Defined.
